(** * The background main loop and the 1fichier link resolver stub

    A shallow embedding of

    - [src/main/services/main-loop.ts]  ([startMainLoop]) and
    - [src/main/services/hosters/fichier.ts]  ([FichierApi.getDownloadUrl]).

    Both are [async] functions.  An [async] function is embedded as a
    computation in a small monad [M] that threads the state of the event
    loop (a logical clock and an observation trace) and that can complete
    normally, complete abruptly (a JavaScript [throw]) or stay suspended
    for ever at an [await] on a promise that never settles.  A promise is
    represented by its fate: the instant at which it settles together with
    its settlement, or [Forever].

    The unbounded [while (true)] loop is run with a budget of iterations;
    running out of budget is reported as [Running], which is distinct
    from the loop returning, crashing or stalling. *)

From Stdlib Require Import List NArith Arith Bool String Lia Sorted.
Import ListNotations.
Local Open Scope N_scope.

(** ** Tasks

    The five collaborators that [main-loop.ts] imports and calls. *)

Inductive task : Type :=
| watchProcesses
| watchDownloads
| watchAchievements
| getSeedStatus
| checkForUpdatePeriodically.

Definition task_eq_dec (a b : task) : {a = b} + {a <> b}.
Proof. decide equality. Defined.

(** ** Promises *)

Section Model.

(** What a task resolves with and what it rejects with are opaque to
    the loop. *)
Context {value reason : Type}.

(** How a promise settles. *)
Inductive settlement (A : Type) : Type :=
| Fulfilled (v : A)
| Rejected (r : reason).
Arguments Fulfilled {A} v.
Arguments Rejected {A} r.

(** A promise, by its fate: it settles at instant [at] (milliseconds on
    the logical clock), or it stays pending for ever. *)
Inductive promise (A : Type) : Type :=
| Settles (at_ : N) (s : settlement A)
| Forever.
Arguments Settles {A} at_ s.
Arguments Forever {A}.

(** The element type of the array [Promise.allSettled] fulfils with:
    [{status: "fulfilled", value}] or [{status: "rejected", reason}]. *)
Inductive settledResult (A : Type) : Type :=
| StatusFulfilled (v : A)
| StatusRejected (r : reason).
Arguments StatusFulfilled {A} v.
Arguments StatusRejected {A} r.

Definition toResult {A} (s : settlement A) : settledResult A :=
  match s with
  | Fulfilled v => StatusFulfilled v
  | Rejected r => StatusRejected r
  end.

(** [Promise.allSettled] over an array of promises, called at instant
    [t0].  The resulting promise is pending as long as one input is; it
    settles when the last input does, and it is always fulfilled, with
    one result per input, in the order of the inputs. *)
Fixpoint allSettled_collect {A} (t0 : N) (ps : list (promise A))
  : option (N * list (settledResult A)) :=
  match ps with
  | [] => Some (t0, [])
  | Settles t s :: ps' =>
      match allSettled_collect t0 ps' with
      | Some (t', rs) => Some (N.max t t', toResult s :: rs)
      | None => None
      end
  | Forever :: _ => None
  end.

Definition allSettled {A} (t0 : N) (ps : list (promise A))
  : promise (list (settledResult A)) :=
  match allSettled_collect t0 ps with
  | Some (t, rs) => Settles t (Fulfilled rs)
  | None => Forever
  end.

(** ** The environment

    Modelled from the spec: the bodies of the five tasks are not part of
    the sources at hand.  Per the Task contract a task is a zero-argument
    operation that completes asynchronously with a success or a failure,
    after a bounded or unbounded delay: the call itself returns a promise,
    and an exception raised inside the task is a rejection of that
    promise.  A [world] fixes, for the call of each task made in each
    iteration of the loop, what becomes of the promise that the call
    returns: after how long it settles and how, or that it never does. *)
Inductive fate : Type :=
| SettlesAfter (d : N) (s : settlement value)
| NeverSettles.

Definition world : Type := nat -> task -> fate.

Definition promiseOf (t0 : N) (f : fate) : promise value :=
  match f with
  | SettlesAfter d s => Settles (t0 + d) s
  | NeverSettles => Forever
  end.

(** ** Observations *)

(** The trace records what the loop does.  Every event carries the
    number of the iteration (the Cycle) that produced it and its instant. *)
Inductive event : Type :=
| Invoked (k : nat) (t : task) (at_ : N) (p : promise value)
    (* task [t] was called and returned promise [p] *)
| AllSettled (k : nat) (at_ : N) (rs : list (settledResult value))
    (* the await on [Promise.allSettled] resumed with [rs] *)
| Sleep (k : nat) (at_ : N) (ms : N).
    (* [sleep(ms)] was called *)

(** State of the event loop as seen from [startMainLoop]: the clock, the
    number of iterations completed and the trace.  The program itself has
    no variable at all; [cycle] and [trace] are bookkeeping of the model,
    [cycle] telling the world which call of a task it is answering. *)
Record state : Type := mkState {
  now : N;
  cycle : nat;
  trace : list event
}.

Definition init : state := mkState 0 0 [].

(** ** The monad of [async] function bodies *)

Inductive completion (A : Type) : Type :=
| Normal (a : A) (st : state)
| Throw (r : reason) (st : state)
| Suspended (st : state).
Arguments Normal {A} a st.
Arguments Throw {A} r st.
Arguments Suspended {A} st.

Definition M (A : Type) : Type := state -> completion A.

Definition ret {A} (a : A) : M A := fun st => Normal a st.

Definition bind {A B} (m : M A) (f : A -> M B) : M B :=
  fun st =>
    match m st with
    | Normal a st' => f a st'
    | Throw r st' => Throw r st'
    | Suspended st' => Suspended st'
    end.

Notation "x <- m ;; k" := (bind m (fun x => k))
  (at level 61, m at next level, right associativity).
Notation "m ;; k" := (bind m (fun _ => k))
  (at level 61, right associativity).

(** [await p]: the function is suspended until [p] settles; it resumes
    with the value when [p] is fulfilled, and the rejection reason is
    thrown at the [await] when [p] is rejected.  A promise that settled
    in the past resumes the function without moving the clock back. *)
Definition await {A} (p : promise A) : M A :=
  fun st =>
    match p with
    | Settles t (Fulfilled v) =>
        Normal v (mkState (N.max (now st) t) (cycle st) (trace st))
    | Settles t (Rejected r) =>
        Throw r (mkState (N.max (now st) t) (cycle st) (trace st))
    | Forever => Suspended st
    end.

(** Bookkeeping: append an observation, stamped with the iteration
    number and the clock. *)
Definition observe (e : nat -> N -> event) : M unit :=
  fun st =>
    Normal tt (mkState (now st) (cycle st)
                 (trace st ++ [e (cycle st) (now st)])).

(** Calling a task: the call returns a promise at once; what becomes of
    that promise is up to the world. *)
Definition invoke (w : world) (t : task) : M (promise value) :=
  fun st =>
    let p := promiseOf (now st) (w (cycle st) t) in
    Normal p (mkState (now st) (cycle st)
                (trace st ++ [Invoked (cycle st) t (now st) p])).

(** [Promise.allSettled(ps)], called now. *)
Definition Promise_allSettled {A} (ps : list (promise A))
  : M (promise (list (settledResult A))) :=
  fun st => Normal (allSettled (now st) ps) st.

(** Modelled from the spec: the helper [sleep] of [@main/helpers] is not
    part of the sources at hand.  It is the pacing primitive
    [delay(durationMs)], which resolves after the duration.  The call is
    recorded in the trace. *)
Definition sleep (ms : N) : M (promise unit) :=
  fun st =>
    Normal (Settles (now st + ms) (Fulfilled tt))
      (mkState (now st) (cycle st)
         (trace st ++ [Sleep (cycle st) (now st) ms])).

(** ** [while] loops, with a budget *)

Inductive outcome : Type :=
| Running (st : state)              (* budget spent, the loop goes on *)
| Returned (st : state)             (* the loop condition was false *)
| Crashed (r : reason) (st : state) (* the body threw: the promise of
                                       the async function is rejected *)
| Stalled (st : state).             (* suspended for ever at an await *)

(** Bookkeeping: one more iteration is complete. *)
Definition nextCycle (st : state) : state :=
  mkState (now st) (S (cycle st)) (trace st).

Fixpoint while_ (cond : bool) (body : M unit) (budget : nat) (st : state)
  : outcome :=
  match budget with
  | O => Running st
  | S budget' =>
      if cond then
        match body st with
        | Normal _ st' => while_ cond body budget' (nextCycle st')
        | Throw r st' => Crashed r st'
        | Suspended st' => Stalled st'
        end
      else Returned st
  end.

(** ** [main-loop.ts] *)

(** The body of the [while (true)] loop of [startMainLoop]: the array
    literal is evaluated from left to right, each element being a call;
    the array that [Promise.allSettled] fulfils with is bound to nothing
    in the source and is only observed here. *)
Definition loopBody (w : world) : M unit :=
  p1 <- invoke w watchProcesses ;;
  p2 <- invoke w watchDownloads ;;
  p3 <- invoke w watchAchievements ;;
  p4 <- invoke w getSeedStatus ;;
  p5 <- invoke w checkForUpdatePeriodically ;;
  all <- Promise_allSettled [p1; p2; p3; p4; p5] ;;
  rs <- await all ;;
  observe (fun k t => AllSettled k t rs) ;;
  timer <- sleep 1500 ;;
  await timer.

Definition startMainLoop (w : world) (budget : nat) : outcome :=
  while_ true (loopBody w) budget init.

(** ** The Orchestrator of the specification

    [run(taskSet, pacingDelay)], written after the words of the
    specification, to be compared with [startMainLoop]: launch every
    task of the Task Set in order, wait until all have settled, then
    suspend for the pacing delay, for ever. *)

Definition taskSet : list task :=
  [watchProcesses; watchDownloads; watchAchievements; getSeedStatus;
   checkForUpdatePeriodically].

Definition pacingDelay : N := 1500.

Fixpoint launchAll (w : world) (ts : list task) : M (list (promise value)) :=
  match ts with
  | [] => ret []
  | t :: ts' =>
      p <- invoke w t ;;
      ps <- launchAll w ts' ;;
      ret (p :: ps)
  end.

Definition Cycle (w : world) (tasks : list task) (delay : N) : M unit :=
  ps <- launchAll w tasks ;;
  all <- Promise_allSettled ps ;;
  rs <- await all ;;
  observe (fun k t => AllSettled k t rs) ;;
  timer <- sleep delay ;;
  await timer.

Definition run (w : world) (tasks : list task) (delay : N) (budget : nat)
  : outcome :=
  while_ true (Cycle w tasks delay) budget init.

(** ** [hosters/fichier.ts] *)

(** An [async] function called at instant [t0]: its body runs and the
    call returns a promise, fulfilled with what the body returns and
    rejected with what the body throws. *)
Definition async_ {A} (body : M A) (st : state) : promise A :=
  match body st with
  | Normal a st' => Settles (now st') (Fulfilled a)
  | Throw r st' => Settles (now st') (Rejected r)
  | Suspended _ => Forever
  end.

(** [FichierApi.getDownloadUrl(url)]: [return url;]. *)
Definition getDownloadUrl (url : string) : state -> promise string :=
  async_ (ret url).

(** ** Reading a trace *)

(** The tasks called in iteration [k], in the order of the calls. *)
Definition launchedIn (k : nat) (tr : list event) : list task :=
  flat_map (fun e => match e with
                     | Invoked k' t _ _ => if Nat.eqb k' k then [t] else []
                     | _ => []
                     end) tr.

(** All the tasks called, in the order of the calls. *)
Definition launched (tr : list event) : list task :=
  flat_map (fun e => match e with Invoked _ t _ _ => [t] | _ => [] end) tr.

(** The durations of the sleeps requested, in order. *)
Definition sleeps (tr : list event) : list N :=
  flat_map (fun e => match e with Sleep _ _ ms => [ms] | _ => [] end) tr.

(** The state an outcome carries. *)
Definition stateOf (o : outcome) : state :=
  match o with
  | Running st | Returned st | Crashed _ st | Stalled st => st
  end.

(** The number of iterations begun: those completed, and the one at
    which the loop is stalled. *)
Definition cyclesBegun (o : outcome) : nat :=
  match o with
  | Stalled st => S (cycle st)
  | _ => cycle (stateOf o)
  end.

(** What the loop expects of the world for the calls of one iteration:
    the events of the calls and the promises they return. *)
Definition launches (w : world) (k : nat) (t0 : N) (ts : list task)
  : list event :=
  map (fun t => Invoked k t t0 (promiseOf t0 (w k t))) ts.

Definition promises (w : world) (k : nat) (t0 : N) (ts : list task)
  : list (promise value) :=
  map (fun t => promiseOf t0 (w k t)) ts.

(** The trace of [n] completed iterations that end at instant [t]. *)
Inductive history (w : world) (tasks : list task) (delay : N)
  : nat -> N -> list event -> Prop :=
| history_O : history w tasks delay 0 0 []
| history_S k t0 tr t1 rs :
    history w tasks delay k t0 tr ->
    allSettled_collect t0 (promises w k t0 tasks) = Some (t1, rs) ->
    history w tasks delay (S k) (t1 + delay)
      (tr ++ launches w k t0 tasks
          ++ [AllSettled k t1 rs; Sleep k t1 delay]).

(** The iteration an event belongs to. *)
Definition tag (e : event) : nat :=
  match e with
  | Invoked k _ _ _ | AllSettled k _ _ | Sleep k _ _ => k
  end.

(** The events of a completed iteration. *)
Definition cycleEvents (w : world) (tasks : list task) (delay : N)
  (k : nat) (t0 t1 : N)
  (rs : list (settledResult value)) : list event :=
  launches w k t0 tasks ++ [AllSettled k t1 rs; Sleep k t1 delay].

(** What [run] can result in, after any budget. *)
Inductive runs (w : world) (tasks : list task) (delay : N) (n : nat)
  : outcome -> Prop :=
| runs_Running t tr :
    history w tasks delay n t tr ->
    runs w tasks delay n (Running (mkState t n tr))
| runs_Stalled k t0 tr :
    (k < n)%nat ->
    history w tasks delay k t0 tr ->
    allSettled_collect t0 (promises w k t0 tasks) = None ->
    runs w tasks delay n
      (Stalled (mkState t0 k (tr ++ launches w k t0 tasks))).

(** ** What the loop does, outcomes of the tasks left out *)

(** When the promise of a task settles, if it does, counted from the
    call. *)
Definition timing (f : fate) : option N :=
  match f with
  | SettlesAfter d _ => Some d
  | NeverSettles => None
  end.

Definition settleInstant {A} (p : promise A) : option N :=
  match p with
  | Settles t _ => Some t
  | Forever => None
  end.

(** An event without the values, reasons and statuses it carries. *)
Inductive scheduled : Type :=
| SInvoked (k : nat) (t : task) (at_ : N) (settlesAt : option N)
| SAllSettled (k : nat) (at_ : N) (size : nat)
| SSleep (k : nat) (at_ : N) (ms : N).

Definition eraseEvent (e : event) : scheduled :=
  match e with
  | Invoked k t a p => SInvoked k t a (settleInstant p)
  | AllSettled k a rs => SAllSettled k a (List.length rs)
  | Sleep k a ms => SSleep k a ms
  end.

Inductive status : Type := IsRunning | IsReturned | IsCrashed | IsStalled.

Definition statusOf (o : outcome) : status :=
  match o with
  | Running _ => IsRunning
  | Returned _ => IsReturned
  | Crashed _ _ => IsCrashed
  | Stalled _ => IsStalled
  end.

(** The behaviour of the loop: whether it runs or is stalled, its clock,
    the count of its iterations, and when it called what. *)
Definition schedule (o : outcome) : status * N * nat * list scheduled :=
  (statusOf o, now (stateOf o), cycle (stateOf o),
   map eraseEvent (trace (stateOf o))).

Definition sameSchedule (st1 st2 : state) : Prop :=
  now st1 = now st2 /\ cycle st1 = cycle st2 /\
  map eraseEvent (trace st1) = map eraseEvent (trace st2).

(** ** Durations and instants *)




End Model.

Arguments Fulfilled {reason A} v.
Arguments Rejected {reason A} r.
Arguments Settles {reason A} at_ s.
Arguments Forever {reason A}.
Arguments StatusFulfilled {reason A} v.
Arguments StatusRejected {reason A} r.
Arguments Normal {value reason A} a st.
Arguments Throw {value reason A} r st.
Arguments Suspended {value reason A} st.

(** ** Sample worlds *)

(** How long each task takes, in the sample worlds. *)
Definition duration (t : task) : N :=
  match t with
  | watchProcesses => 200
  | watchDownloads => 40
  | watchAchievements => 75
  | getSeedStatus => 10
  | checkForUpdatePeriodically => 120
  end.

(** Every task fulfils, in every iteration. *)
Definition calm : @world unit string :=
  fun _ t => SettlesAfter (duration t) (Fulfilled tt).

(** [watchDownloads] rejects in every iteration. *)
Definition faulty : @world unit string :=
  fun _ t =>
    match t with
    | watchDownloads => SettlesAfter (duration t) (Rejected "network down"%string)
    | _ => SettlesAfter (duration t) (Fulfilled tt)
    end.

(** The promise of [getSeedStatus] never settles in iteration 1. *)
Definition hanging : @world unit string :=
  fun k t =>
    match k, t with
    | 1%nat, getSeedStatus => NeverSettles
    | _, _ => calm k t
    end.

Section Proofs.

Context {value reason : Type}.

Local Abbreviation world := (@world value reason) (only parsing).
Local Abbreviation state := (@state value reason) (only parsing).
Local Abbreviation event := (@event value reason) (only parsing).
Local Abbreviation outcome := (@outcome value reason) (only parsing).
Local Abbreviation M := (@M value reason) (only parsing).
Local Abbreviation promise := (@promise reason) (only parsing).
Local Abbreviation settledResult := (@settledResult reason) (only parsing).

(** ** The source is the Orchestrator at its two constants *)

Lemma while_ext (c : bool) (b1 b2 : M unit) :
  (forall st, b1 st = b2 st) ->
  forall n st, while_ c b1 n st = while_ c b2 n st.
Proof.
  intros Hb n. induction n as [|n IH]; intros st; simpl.
  - reflexivity.
  - destruct c; [|reflexivity].
    rewrite Hb. destruct (b2 st); auto.
Qed.

Lemma loopBody_Cycle (w : world) (st : state) :
  loopBody w st = Cycle w taskSet pacingDelay st.
Proof. reflexivity. Qed.

Lemma startMainLoop_run (w : world) (n : nat) :
  startMainLoop w n = run w taskSet pacingDelay n.
Proof. apply while_ext, loopBody_Cycle. Qed.

(** ** One iteration *)

Lemma launchAll_eq (w : world) (ts : list task) (st : state) :
  launchAll w ts st =
  Normal (promises w (cycle st) (now st) ts)
    (mkState (now st) (cycle st)
       (trace st ++ launches w (cycle st) (now st) ts)).
Proof.
  revert st. induction ts as [|t ts IH]; intros [t0 k tr]; simpl.
  - unfold ret. now rewrite app_nil_r.
  - unfold bind at 1. unfold invoke at 1. simpl.
    unfold bind. rewrite IH. simpl. unfold ret.
    now rewrite <- app_assoc.
Qed.

Lemma collect_ge {A} (t0 : N) (ps : list (promise A)) t1 rs :
  allSettled_collect t0 ps = Some (t1, rs) -> t0 <= t1.
Proof.
  revert t1 rs. induction ps as [|[t s|] ps IH]; simpl; intros t1 rs H.
  - inversion H; subst. lia.
  - destruct (allSettled_collect t0 ps) as [[t' rs']|]; [|discriminate].
    inversion H; subst. specialize (IH _ _ eq_refl). lia.
  - discriminate.
Qed.

Lemma Cycle_settled (w : world) tasks delay (st : state) t1 rs :
  allSettled_collect (now st) (promises w (cycle st) (now st) tasks)
    = Some (t1, rs) ->
  Cycle w tasks delay st =
  Normal tt
    (mkState (t1 + delay) (cycle st)
       (trace st ++ launches w (cycle st) (now st) tasks
          ++ [AllSettled (cycle st) t1 rs; Sleep (cycle st) t1 delay])).
Proof.
  intros H. pose proof (collect_ge _ _ _ _ H) as Hge.
  unfold Cycle, bind. rewrite launchAll_eq.
  unfold Promise_allSettled, allSettled. simpl. rewrite H. simpl.
  replace (N.max (now st) t1) with t1 by lia.
  replace (N.max t1 (t1 + delay)) with (t1 + delay) by lia.
  now rewrite <- !app_assoc.
Qed.

Lemma Cycle_hung (w : world) tasks delay (st : state) :
  allSettled_collect (now st) (promises w (cycle st) (now st) tasks)
    = None ->
  Cycle w tasks delay st =
  Suspended
    (mkState (now st) (cycle st)
       (trace st ++ launches w (cycle st) (now st) tasks)).
Proof.
  intros H. unfold Cycle, bind. rewrite launchAll_eq.
  unfold Promise_allSettled, allSettled. simpl. now rewrite H.
Qed.

(** ** The loop *)

Lemma while_snoc (c : bool) (b : M unit) (n : nat) (st : state) :
  while_ c b (S n) st =
  match while_ c b n st with
  | Running st' => while_ c b 1 st'
  | o => o
  end.
Proof.
  revert st. induction n as [|n IH]; intros st.
  - reflexivity.
  - change (while_ c b (S (S n)) st) with
      (if c then
         match b st with
         | Normal _ st' => while_ c b (S n) (nextCycle st')
         | Throw r st' => Crashed r st'
         | Suspended st' => Stalled st'
         end
       else Returned st).
    simpl (while_ c b (S n) st).
    destruct c; [|reflexivity].
    destruct (b st) as [[] st'|r st'|st']; try reflexivity.
    apply IH.
Qed.

Lemma run_runs (w : world) tasks delay (n : nat) :
  runs w tasks delay n (run w tasks delay n).
Proof.
  unfold run. induction n as [|n IH].
  - simpl. apply runs_Running. constructor.
  - rewrite while_snoc. inversion IH as [t tr Hh Heq|k t0 tr Hk Hh Hc Heq].
    + simpl.
      destruct (allSettled_collect t (promises w n t tasks))
        as [[t1 rs]|] eqn:Hc.
      * rewrite (Cycle_settled w tasks delay (mkState t n tr) t1 rs Hc).
        simpl. apply runs_Running. now apply history_S with (t0 := t).
      * rewrite (Cycle_hung w tasks delay (mkState t n tr) Hc). simpl.
        apply runs_Stalled; auto.
    + apply runs_Stalled; auto.
Qed.

(** ** What [Promise.allSettled] yields on the promises of an iteration *)

Lemma collect_Forall2 (w : world) k t0 ts t1 rs :
  allSettled_collect t0 (promises w k t0 ts) = Some (t1, rs) ->
  Forall2 (fun t r => exists d s,
               w k t = SettlesAfter d s /\ r = toResult s /\ t0 + d <= t1)
    ts rs.
Proof.
  revert t1 rs. induction ts as [|t ts IH]; simpl; intros t1 rs H.
  - inversion H; subst. constructor.
  - destruct (w k t) as [d s|] eqn:Hw; simpl in H; [|discriminate].
    destruct (allSettled_collect t0 (promises w k t0 ts))
      as [[t' rs']|]; [|discriminate].
    inversion H; subst. specialize (IH _ _ eq_refl).
    constructor.
    + exists d, s. repeat split; auto. lia.
    + eapply Forall2_impl; [|exact IH].
      intros a b (d' & s' & H1 & H2 & H3).
      exists d', s'. repeat split; auto. lia.
Qed.

Lemma collect_total (w : world) k t0 ts :
  (forall t, In t ts -> w k t <> NeverSettles) ->
  exists t1 rs, allSettled_collect t0 (promises w k t0 ts) = Some (t1, rs).
Proof.
  induction ts as [|t ts IH]; simpl; intros H.
  - eauto.
  - destruct IH as (t1 & rs & E); [intros; apply H; auto|].
    rewrite E. destruct (w k t) as [d s|] eqn:Hw; simpl.
    + eauto.
    + exfalso. apply (H t); auto.
Qed.

Lemma collect_settles (w : world) k t0 ts t1 rs t :
  allSettled_collect t0 (promises w k t0 ts) = Some (t1, rs) ->
  In t ts ->
  exists d s, w k t = SettlesAfter d s /\ t0 + d <= t1.
Proof.
  intros H Hin. apply collect_Forall2 in H.
  induction H as [|a b l l' (d & s & H1 & _ & H3) _ IH].
  - destruct Hin.
  - destruct Hin as [->|Hin]; eauto.
Qed.

(** On a task set that is not empty, the instant at which
    [Promise.allSettled] settles is that of the last settlement. *)
Lemma collect_last (w : world) k t0 ts t1 rs :
  allSettled_collect t0 (promises w k t0 ts) = Some (t1, rs) ->
  ts <> [] ->
  exists t d s, In t ts /\ w k t = SettlesAfter d s /\ t1 = t0 + d.
Proof.
  revert t1 rs. induction ts as [|t ts IH]; simpl; intros t1 rs H Hne.
  - congruence.
  - destruct (w k t) as [d s|] eqn:Hw; simpl in H; [|discriminate].
    destruct (allSettled_collect t0 (promises w k t0 ts))
      as [[t' rs']|] eqn:E; [|discriminate].
    inversion H; subst. clear H.
    destruct (N.max_spec (t0 + d) t') as [[Hlt ->]|[Hle ->]].
    + destruct ts as [|t2 ts].
      * simpl in E. inversion E; subst. lia.
      * destruct (IH _ _ eq_refl) as (u & d' & s' & Hin & Hu & ->);
          [discriminate|].
        exists u, d', s'. auto.
    + exists t, d, s. auto.
Qed.

(** ** Histories *)

(** A bound on the tags of a list follows from another one, [H], on the
    same list. *)
Ltac tags_from H :=
  eapply Forall_impl; [|apply H]; cbn beta; intros; lia.

Section History.

Variables (w : world) (tasks : list task) (delay : N).

Local Abbreviation cycleEvents := (cycleEvents w tasks delay) (only parsing).

Lemma tag_launches k t0 ts :
  Forall (fun e => tag e = k) (launches w k t0 ts).
Proof. apply Forall_forall. intros e H. apply in_map_iff in H.
       destruct H as (t & <- & _). reflexivity. Qed.

Lemma tag_cycleEvents k t0 t1 rs :
  Forall (fun e => tag e = k) (cycleEvents k t0 t1 rs).
Proof.
  apply Forall_app. split; [apply tag_launches|].
  repeat constructor.
Qed.

Lemma history_fun n t tr :
  history w tasks delay n t tr ->
  forall t' tr', history w tasks delay n t' tr' -> t = t' /\ tr = tr'.
Proof.
  induction 1 as [|k t0 tr t1 rs H IH Hc]; intros t' tr' H'.
  - inversion H'. auto.
  - inversion H' as [|k' t0' tr0' t1' rs' H0 Hc']; subst.
    destruct (IH _ _ H0) as [-> ->].
    rewrite Hc in Hc'. inversion Hc'; subst. auto.
Qed.

Lemma history_tags n t tr :
  history w tasks delay n t tr -> Forall (fun e => (tag e < n)%nat) tr.
Proof.
  induction 1 as [|k t0 tr t1 rs H IH Hc].
  - constructor.
  - apply Forall_app. split.
    + tags_from IH.
    + tags_from (tag_cycleEvents k t0 t1 rs).
Qed.

Lemma history_prefix n t tr :
  history w tasks delay n t tr ->
  forall k, (k <= n)%nat ->
  exists t0 tr0 post,
    history w tasks delay k t0 tr0 /\ tr = tr0 ++ post /\
    Forall (fun e => (k <= tag e)%nat) post.
Proof.
  induction 1 as [|m t0 tr t1 rs H IH Hc]; intros k Hk.
  - exists 0, [], []. replace k with 0%nat by lia.
    repeat split; constructor.
  - destruct (Nat.eq_dec k (S m)) as [->|Hne].
    + exists (t1 + delay), (tr ++ cycleEvents m t0 t1 rs), [].
      repeat split; [now apply history_S with (t0 := t0)
                    |now rewrite app_nil_r|constructor].
    + destruct (IH k) as (u & tr0 & post & Hh & -> & Hp); [lia|].
      exists u, tr0, (post ++ cycleEvents m t0 t1 rs).
      repeat split; auto.
      * now rewrite <- app_assoc.
      * apply Forall_app. split; auto.
        tags_from (tag_cycleEvents m t0 t1 rs).
Qed.

(** Every iteration [k] that a history holds appears in it whole,
    between what came before and what came after. *)
Lemma history_split n t tr k :
  history w tasks delay n t tr -> (k < n)%nat ->
  exists t0 tr0 t1 rs post,
    history w tasks delay k t0 tr0 /\
    allSettled_collect t0 (promises w k t0 tasks) = Some (t1, rs) /\
    history w tasks delay (S k) (t1 + delay)
      (tr0 ++ cycleEvents k t0 t1 rs) /\
    tr = tr0 ++ cycleEvents k t0 t1 rs ++ post /\
    Forall (fun e => (tag e < k)%nat) tr0 /\
    Forall (fun e => (S k <= tag e)%nat) post.
Proof.
  intros H Hk.
  destruct (history_prefix _ _ _ H (S k)) as (u & tr1 & post & H1 & -> & Hp);
    [lia|].
  inversion H1 as [|k' t0 tr0 t1 rs H0 Hc Ek Et Etr]; subst.
  exists t0, tr0, t1, rs, post. repeat split; auto.
  - now rewrite <- app_assoc.
  - now apply history_tags with (t := t0).
Qed.

End History.

(** ** The calls of an iteration *)

Lemma launchedIn_app k (l1 l2 : list event) :
  launchedIn k (l1 ++ l2) = launchedIn k l1 ++ launchedIn k l2.
Proof. apply flat_map_app. Qed.

Lemma launchedIn_none k (l : list event) :
  Forall (fun e => tag e <> k) l -> launchedIn k l = [].
Proof.
  induction 1 as [|e l He _ IH]; simpl; auto.
  rewrite IH, app_nil_r. destruct e; auto.
  simpl in He. apply Nat.eqb_neq in He. now rewrite He.
Qed.

Lemma launchedIn_launches (w : world) k t0 ts :
  launchedIn k (launches w k t0 ts) = ts.
Proof.
  induction ts as [|t ts IH]; simpl; auto.
  rewrite Nat.eqb_refl. simpl. f_equal. exact IH.
Qed.

Lemma launchedIn_cycleEvents (w : world) tasks delay k t0 t1 rs :
  launchedIn k (cycleEvents w tasks delay k t0 t1 rs) = tasks.
Proof.
  unfold cycleEvents. rewrite launchedIn_app, launchedIn_launches.
  simpl. apply app_nil_r.
Qed.

Lemma history_launchedIn (w : world) tasks delay n t tr k :
  history w tasks delay n t tr ->
  launchedIn k tr = if (k <? n)%nat then tasks else [].
Proof.
  intros H. destruct (Nat.ltb_spec k n) as [Hk|Hk].
  - destruct (history_split w tasks delay n t tr k H Hk)
      as (t0 & tr0 & t1 & rs & post & _ & _ & _ & -> & H0 & Hp).
    rewrite !launchedIn_app, launchedIn_cycleEvents.
    rewrite (launchedIn_none k tr0), (launchedIn_none k post); simpl.
    + apply app_nil_r.
    + tags_from Hp.
    + tags_from H0.
  - apply launchedIn_none. tags_from (history_tags _ _ _ _ _ _ H).
Qed.

(** In every outcome of the Orchestrator, every iteration begun has
    called the tasks of the task set, once each and in order, and no
    other iteration has called anything. *)
Lemma run_launchedIn (w : world) tasks delay n k :
  launchedIn k (trace (stateOf (run w tasks delay n))) =
  if (k <? cyclesBegun (run w tasks delay n))%nat then tasks else [].
Proof.
  destruct (run_runs w tasks delay n) as [t tr H|c t0 tr Hc H Hn]; simpl.
  - exact (history_launchedIn w tasks delay n t tr k H).
  - rewrite launchedIn_app, (history_launchedIn w tasks delay c t0 tr k H).
    destruct (Nat.ltb_spec k c) as [Hk|Hk].
    + rewrite launchedIn_none.
      * replace (k <? S c)%nat with true
          by (symmetry; apply Nat.ltb_lt; lia).
        apply app_nil_r.
      * tags_from (tag_launches w c t0 tasks).
    + destruct (Nat.eq_dec k c) as [->|Hne].
      * rewrite launchedIn_launches.
        replace (c <? S c)%nat with true
          by (symmetry; apply Nat.ltb_lt; lia).
        reflexivity.
      * rewrite launchedIn_none.
        -- replace (k <? S c)%nat with false
             by (symmetry; apply Nat.ltb_ge; lia).
           reflexivity.
        -- tags_from (tag_launches w c t0 tasks).
Qed.

(** Where an event of a history comes from. *)
Lemma history_In (w : world) tasks delay n t tr e :
  history w tasks delay n t tr -> In e tr ->
  exists t0 tr0 t1 rs,
    (tag e < n)%nat /\
    history w tasks delay (tag e) t0 tr0 /\
    allSettled_collect t0 (promises w (tag e) t0 tasks) = Some (t1, rs) /\
    In e (cycleEvents w tasks delay (tag e) t0 t1 rs).
Proof.
  intros H Hin.
  assert (Hlt : (tag e < n)%nat).
  { pose proof (history_tags _ _ _ _ _ _ H) as Ht.
    rewrite Forall_forall in Ht. now apply Ht. }
  destruct (history_split w tasks delay n t tr (tag e) H Hlt)
    as (t0 & tr0 & t1 & rs & post & Hh & Hc & _ & -> & H0 & Hp).
  exists t0, tr0, t1, rs. repeat split; auto.
  rewrite Forall_forall in H0, Hp.
  apply in_app_or in Hin. destruct Hin as [Hin|Hin].
  - apply H0 in Hin. lia.
  - apply in_app_or in Hin. destruct Hin as [Hin|Hin]; auto.
    apply Hp in Hin. lia.
Qed.

(** Where an event of the trace of an outcome comes from: from an
    iteration that completed, or from the calls of the iteration at
    which the loop is stalled. *)
Lemma run_In (w : world) tasks delay n e :
  In e (trace (stateOf (run w tasks delay n))) ->
  exists t0 tr0,
    history w tasks delay (tag e) t0 tr0 /\
    ((exists t1 rs,
         (tag e < cycle (stateOf (run w tasks delay n)))%nat /\
         allSettled_collect t0 (promises w (tag e) t0 tasks)
           = Some (t1, rs) /\
         In e (cycleEvents w tasks delay (tag e) t0 t1 rs))
     \/
     (exists st, run w tasks delay n = Stalled st /\ cycle st = tag e /\
         allSettled_collect t0 (promises w (tag e) t0 tasks) = None /\
         In e (launches w (tag e) t0 tasks))).
Proof.
  destruct (run_runs w tasks delay n) as [t tr H|c t0 tr Hc H Hn];
    simpl; intros Hin.
  - destruct (history_In w tasks delay n t tr e H Hin)
      as (t0 & tr0 & t1 & rs & Hlt & Hh & Hcol & Hin').
    exists t0, tr0. split; auto. left. exists t1, rs. auto.
  - apply in_app_or in Hin. destruct Hin as [Hin|Hin].
    + destruct (history_In w tasks delay c t0 tr e H Hin)
        as (u & tr0 & t1 & rs & Hlt & Hh & Hcol & Hin').
      exists u, tr0. split; auto. left. exists t1, rs. auto.
    + assert (Ht : tag e = c).
      { pose proof (tag_launches w c t0 tasks) as Ht.
        rewrite Forall_forall in Ht. now apply Ht. }
      subst c. exists t0, tr. split; auto. right.
      eexists. repeat split; auto.
Qed.

Lemma in_cycleEvents_Invoked (w : world) tasks delay k t0 t1 rs j u a p :
  In (Invoked j u a p) (cycleEvents w tasks delay k t0 t1 rs) ->
  In (Invoked j u a p) (launches w k t0 tasks).
Proof.
  unfold cycleEvents. intros H. apply in_app_or in H.
  destruct H as [H|[H|[H|[]]]]; auto; discriminate.
Qed.

Lemma in_launches (w : world) k t0 ts j u a p :
  In (Invoked j u a p) (launches w k t0 ts) ->
  j = k /\ In u ts /\ a = t0 /\ p = promiseOf t0 (w k u).
Proof.
  unfold launches. intros H. apply in_map_iff in H.
  destruct H as (t & E & Hin). inversion E; subst. auto.
Qed.

(** A call in the trace: the task is of the task set, the instant is
    that at which the iteration began, and the promise is the one the
    world gives. *)
Lemma run_Invoked (w : world) tasks delay n k u a p :
  In (Invoked k u a p) (trace (stateOf (run w tasks delay n))) ->
  (exists tr0, history w tasks delay k a tr0) /\
  In u tasks /\ p = promiseOf a (w k u) /\
  (k < cyclesBegun (run w tasks delay n))%nat.
Proof.
  intros Hin. destruct (run_In w tasks delay n _ Hin)
    as (t0 & tr0 & Hh & [(t1 & rs & Hlt & Hc & Hin')
                        |(st & Hst & Hk & Hc & Hin')]);
    simpl in *.
  - apply in_cycleEvents_Invoked, in_launches in Hin'.
    destruct Hin' as (_ & Hu & -> & ->). repeat split; eauto.
    destruct (run w tasks delay n); simpl in *; lia.
  - apply in_launches in Hin'. destruct Hin' as (_ & Hu & -> & ->).
    repeat split; eauto. rewrite Hst. simpl. lia.
Qed.

(** A stalled loop stays stalled, in the same state, whatever the
    budget. *)
Lemma while_stalled_stable c (b : M unit) n st0 st :
  while_ c b n st0 = Stalled st ->
  forall m, (n <= m)%nat -> while_ c b m st0 = Stalled st.
Proof.
  intros H m Hm. induction Hm as [|m Hm IH]; auto.
  rewrite while_snoc, IH. reflexivity.
Qed.

(** If every task of each of the first [n] iterations settles, the
    Orchestrator completes [n] iterations. *)
Lemma run_completes (w : world) tasks delay n :
  (forall k t, (k < n)%nat -> In t tasks -> w k t <> NeverSettles) ->
  exists t tr,
    run w tasks delay n = Running (mkState t n tr) /\
    history w tasks delay n t tr.
Proof.
  intros Hall.
  destruct (run_runs w tasks delay n) as [t tr H|c t0 tr Hc H Hn]; eauto.
  destruct (collect_total w c t0 tasks) as (t1 & rs & E).
  - intros t Hin. now apply Hall.
  - congruence.
Qed.

(** The Orchestrator neither returns nor crashes. *)
Lemma run_alive (w : world) tasks delay n :
  (forall st, run w tasks delay n <> Returned st) /\
  (forall r st, run w tasks delay n <> Crashed r st).
Proof.
  destruct (run_runs w tasks delay n); split; intros; discriminate.
Qed.

(** The observation of the array of results of a completed iteration. *)
Lemma history_AllSettled (w : world) tasks delay n t tr k :
  history w tasks delay n t tr -> (k < n)%nat ->
  exists t1 rs,
    In (AllSettled k t1 rs) tr /\
    Forall2 (fun u r => exists d s,
                 w k u = SettlesAfter d s /\ r = toResult s) tasks rs.
Proof.
  intros H Hk.
  destruct (history_split w tasks delay n t tr k H Hk)
    as (t0 & tr0 & t1 & rs & post & _ & Hc & _ & -> & _ & _).
  exists t1, rs. split.
  - apply in_or_app. right. apply in_or_app. left.
    unfold cycleEvents. apply in_or_app. right. simpl. auto.
  - eapply Forall2_impl; [|apply (collect_Forall2 _ _ _ _ _ _ Hc)].
    intros a b (d & s & H1 & H2 & _). eauto.
Qed.

Lemma Forall2_In_l {A B} (P : A -> B -> Prop) l l' a :
  Forall2 P l l' -> In a l -> exists b, In b l' /\ P a b.
Proof.
  induction 1 as [|x y l l' Hxy _ IH]; intros Hin.
  - destruct Hin.
  - destruct Hin as [->|Hin].
    + exists y. simpl. auto.
    + destruct (IH Hin) as (b & Hb & Hp). exists b. simpl. auto.
Qed.

Lemma in_taskSet (t : task) : In t taskSet.
Proof. destruct t; simpl; auto 6. Qed.

Lemma taskSet_once (t : task) : count_occ task_eq_dec taskSet t = 1%nat.
Proof. destruct t; reflexivity. Qed.

(** ** All the calls and all the sleeps of a trace *)

Lemma concat_repeat_comm {A} (l : list A) n :
  List.concat (repeat l n) ++ l = l ++ List.concat (repeat l n).
Proof.
  induction n as [|n IH]; simpl.
  - now rewrite app_nil_r.
  - now rewrite <- app_assoc, IH.
Qed.

Lemma count_occ_concat_repeat (l : list task) n t :
  count_occ task_eq_dec (List.concat (repeat l n)) t
  = (n * count_occ task_eq_dec l t)%nat.
Proof.
  induction n as [|n IH]; simpl; auto.
  now rewrite count_occ_app, IH.
Qed.

Lemma launched_app (l1 l2 : list event) :
  launched (l1 ++ l2) = launched l1 ++ launched l2.
Proof. apply flat_map_app. Qed.

Lemma launched_launches (w : world) k t0 ts :
  launched (launches w k t0 ts) = ts.
Proof. induction ts as [|t ts IH]; simpl; auto. f_equal. exact IH. Qed.

Lemma sleeps_app (l1 l2 : list event) :
  sleeps (l1 ++ l2) = sleeps l1 ++ sleeps l2.
Proof. apply flat_map_app. Qed.

Lemma sleeps_launches (w : world) k t0 ts : sleeps (launches w k t0 ts) = [].
Proof. induction ts as [|t ts IH]; simpl; auto. Qed.

Lemma history_launched (w : world) tasks delay n t tr :
  history w tasks delay n t tr -> launched tr = List.concat (repeat tasks n).
Proof.
  induction 1 as [|k t0 tr t1 rs H IH Hc]; auto.
  rewrite !launched_app, launched_launches, IH. simpl.
  rewrite app_nil_r. apply concat_repeat_comm.
Qed.

Lemma history_sleeps (w : world) tasks delay n t tr :
  history w tasks delay n t tr -> sleeps tr = repeat delay n.
Proof.
  induction 1 as [|k t0 tr t1 rs H IH Hc]; auto.
  rewrite !sleeps_app, sleeps_launches, IH. simpl.
  symmetry. apply repeat_cons.
Qed.

(** The calls of an outcome are the task set, over and over, once for
    each iteration begun. *)
Lemma run_launched (w : world) tasks delay n :
  launched (trace (stateOf (run w tasks delay n))) =
  List.concat (repeat tasks (cyclesBegun (run w tasks delay n))).
Proof.
  destruct (run_runs w tasks delay n) as [t tr H|c t0 tr Hc H Hn]; simpl.
  - exact (history_launched w tasks delay n t tr H).
  - rewrite launched_app, launched_launches.
    rewrite (history_launched w tasks delay c t0 tr H).
    apply concat_repeat_comm.
Qed.

(** The sleeps of an outcome: one of the pacing delay for each iteration
    completed. *)
Lemma run_sleeps (w : world) tasks delay n :
  sleeps (trace (stateOf (run w tasks delay n))) =
  repeat delay (cycle (stateOf (run w tasks delay n))).
Proof.
  destruct (run_runs w tasks delay n) as [t tr H|c t0 tr Hc H Hn]; simpl.
  - exact (history_sleeps w tasks delay n t tr H).
  - rewrite sleeps_app, sleeps_launches, app_nil_r.
    exact (history_sleeps w tasks delay c t0 tr H).
Qed.

(** ** Two consecutive iterations *)

(** The trace of an outcome: a history, followed by the calls of the
    iteration at which the loop is stalled, if it is. *)
Lemma run_trace (w : world) tasks delay n :
  exists c t tr extra,
    history w tasks delay c t tr /\
    trace (stateOf (run w tasks delay n)) = tr ++ extra /\
    Forall (fun e => tag e = c) extra /\
    (cyclesBegun (run w tasks delay n) <= S c)%nat.
Proof.
  destruct (run_runs w tasks delay n) as [t tr H|c t0 tr Hc H Hn]; simpl.
  - exists n, t, tr, []. rewrite app_nil_r. repeat split; auto.
  - exists c, t0, tr, (launches w c t0 tasks). repeat split; auto.
    apply tag_launches.
Qed.

Lemma run_no_overlap (w : world) tasks delay n k :
  (S k < cyclesBegun (run w tasks delay n))%nat ->
  exists t0 t1 rs pre post,
    trace (stateOf (run w tasks delay n)) =
      pre ++ AllSettled k t1 rs :: Sleep k t1 delay :: post /\
    (launchedIn k pre = tasks /\ launchedIn (S k) pre = []) /\
    (launchedIn k post = [] /\ launchedIn (S k) post = tasks) /\
    allSettled_collect t0 (promises w k t0 tasks) = Some (t1, rs) /\
    (forall t a p,
        In (Invoked k t a p) (trace (stateOf (run w tasks delay n))) ->
        In t tasks /\ a = t0 /\ p = promiseOf t0 (w k t)) /\
    (forall t,
        In t tasks ->
        In (Invoked k t t0 (promiseOf t0 (w k t)))
          (trace (stateOf (run w tasks delay n)))) /\
    (forall t a p,
        In (Invoked (S k) t a p) (trace (stateOf (run w tasks delay n))) ->
        a = t1 + delay).
Proof.
  intros Hk.
  destruct (run_trace w tasks delay n)
    as (c & t & tr & extra & H & Htr & Hex & Hle).
  assert (Hkc : (k < c)%nat) by lia.
  destruct (history_split w tasks delay c t tr k H Hkc)
    as (t0 & tr0 & t1 & rs & post & Hh & Hc & HS & -> & H0 & Hp).
  exists t0, t1, rs, (tr0 ++ launches w k t0 tasks), (post ++ extra).
  assert (Etr : trace (stateOf (run w tasks delay n)) =
                (tr0 ++ launches w k t0 tasks)
                  ++ AllSettled k t1 rs :: Sleep k t1 delay
                  :: post ++ extra).
  { rewrite Htr. unfold cycleEvents. rewrite <- !app_assoc. reflexivity. }
  assert (Hpre : launchedIn (S k) (tr0 ++ launches w k t0 tasks) = []).
  { apply launchedIn_none, Forall_app. split.
    - tags_from H0.
    - tags_from (tag_launches w k t0 tasks). }
  assert (Hpost : launchedIn k (post ++ extra) = []).
  { apply launchedIn_none, Forall_app. split.
    - tags_from Hp.
    - tags_from Hex. }
  split; [exact Etr|]. split; [split|]; [|exact Hpre|].
  { rewrite launchedIn_app, launchedIn_launches, launchedIn_none.
    - reflexivity.
    - tags_from H0. }
  split; [split|]; [exact Hpost| |].
  { pose proof (run_launchedIn w tasks delay n (S k)) as HL.
    apply Nat.ltb_lt in Hk. rewrite Hk, Etr, launchedIn_app, Hpre in HL.
    exact HL. }
  split; [exact Hc|]. split; [|split].
  - intros u a p Hin. apply run_Invoked in Hin.
    destruct Hin as ((tr' & H') & Hu & -> & _).
    destruct (history_fun _ _ _ _ _ _ H' _ _ Hh) as [-> _]. auto.
  - intros u Hu. rewrite Etr. apply in_or_app. left.
    apply in_or_app. right. unfold launches.
    apply in_map_iff. exists u. auto.
  - intros u a p Hin. apply run_Invoked in Hin.
    destruct Hin as ((tr' & H') & _).
    now destruct (history_fun _ _ _ _ _ _ H' _ _ HS).
Qed.

(** ** Two worlds that differ in outcomes only *)

Section TwoWorlds.

Variables w1 w2 : world.
Hypothesis same_timing : forall k t, timing (w1 k t) = timing (w2 k t).

Lemma launches_erased k t0 ts :
  map eraseEvent (launches w1 k t0 ts) =
  map eraseEvent (launches w2 k t0 ts).
Proof.
  unfold launches. rewrite !map_map. apply map_ext. intros t. simpl.
  specialize (same_timing k t).
  destruct (w1 k t), (w2 k t); simpl in *; congruence.
Qed.

Lemma collect_erased k t0 ts :
  match allSettled_collect t0 (promises w1 k t0 ts),
        allSettled_collect t0 (promises w2 k t0 ts) with
  | Some (t1, rs1), Some (t2, rs2) => t1 = t2 /\ List.length rs1 = List.length rs2
  | None, None => True
  | _, _ => False
  end.
Proof.
  induction ts as [|t ts IH]; simpl; auto.
  specialize (same_timing k t).
  destruct (w1 k t) as [d1 s1|], (w2 k t) as [d2 s2|];
    simpl in *; try discriminate; auto.
  destruct (allSettled_collect t0 (promises w1 k t0 ts)) as [[u1 r1]|],
           (allSettled_collect t0 (promises w2 k t0 ts)) as [[u2 r2]|];
    auto.
  destruct IH as [-> Hl]. inversion same_timing; subst.
  simpl. auto.
Qed.

Lemma while_erased tasks delay n :
  forall st1 st2, sameSchedule st1 st2 ->
  schedule (while_ true (Cycle w1 tasks delay) n st1) =
  schedule (while_ true (Cycle w2 tasks delay) n st2).
Proof.
  induction n as [|n IH]; intros [t1 c1 tr1] [t2 c2 tr2] (Ht & Hc & Htr);
    simpl in Ht, Hc, Htr; subst t2 c2.
  - unfold schedule. simpl. now rewrite Htr.
  - simpl.
    pose proof (collect_erased c1 t1 tasks) as Hcol.
    destruct (allSettled_collect t1 (promises w1 c1 t1 tasks))
      as [[u1 r1]|] eqn:E1;
      destruct (allSettled_collect t1 (promises w2 c1 t1 tasks))
        as [[u2 r2]|] eqn:E2; try contradiction.
    + destruct Hcol as [-> Hlen].
      rewrite (Cycle_settled w1 tasks delay (mkState t1 c1 tr1) u2 r1 E1).
      rewrite (Cycle_settled w2 tasks delay (mkState t1 c1 tr2) u2 r2 E2).
      apply IH. unfold sameSchedule, nextCycle. simpl.
      repeat split.
      rewrite !map_app, Htr, launches_erased. simpl. now rewrite Hlen.
    + rewrite (Cycle_hung w1 tasks delay (mkState t1 c1 tr1) E1).
      rewrite (Cycle_hung w2 tasks delay (mkState t1 c1 tr2) E2).
      unfold schedule. simpl.
      now rewrite !map_app, Htr, launches_erased.
Qed.

End TwoWorlds.

(** ** The properties of the specification *)

(** C1.  Fault isolation: let every task called in the first [n]
    iterations settle, by fulfilling or by rejecting, in any mix.  Then
    [startMainLoop] does not crash: it completes all [n] iterations and
    has called every task exactly [n] times.  In each iteration all five
    tasks are called, and the array that [Promise.allSettled] yields
    holds, for every task, the result of that task alone; the reason of a
    task that rejects is in it as a [StatusRejected] value. *)
Theorem C1_fault_isolation (w : world) (n : nat) :
  (forall k t, (k < n)%nat -> w k t <> NeverSettles) ->
  exists st,
    startMainLoop w n = Running st /\ cycle st = n /\
    (forall t, count_occ task_eq_dec (launched (trace st)) t = n) /\
    forall k, (k < n)%nat ->
      launchedIn k (trace st) = taskSet /\
      exists t1 rs,
        In (AllSettled k t1 rs) (trace st) /\
        Forall2 (fun t r => exists d s,
                     w k t = SettlesAfter d s /\ r = toResult s)
          taskSet rs /\
        forall t d r,
          w k t = SettlesAfter d (Rejected r) -> In (StatusRejected r) rs.
Proof.
  intros Hall. rewrite startMainLoop_run.
  destruct (run_completes w taskSet pacingDelay n) as (t & tr & E & H).
  { intros k u Hk _. now apply Hall. }
  rewrite E. exists (mkState t n tr). cbn [cycle trace].
  split; [reflexivity|]. split; [reflexivity|]. split.
  - intros u. rewrite (history_launched w taskSet pacingDelay n t tr H).
    rewrite count_occ_concat_repeat, taskSet_once. lia.
  - intros k Hk. split.
    + rewrite (history_launchedIn w taskSet pacingDelay n t tr k H).
      apply Nat.ltb_lt in Hk. now rewrite Hk.
    + destruct (history_AllSettled w taskSet pacingDelay n t tr k H Hk)
        as (t1 & rs & Hin & Hf).
      exists t1, rs. split; [exact Hin|]. split; [exact Hf|].
      intros u d r Hu.
      destruct (Forall2_In_l _ _ _ u Hf (in_taskSet u))
        as (b & Hb & d' & s' & Hw & ->).
      rewrite Hu in Hw. inversion Hw; subst. exact Hb.
Qed.

(** C2.  No Cycle overlap and pacing: let iteration [k+1] of
    [startMainLoop] have begun.  Then the trace holds, in this order:
    all the calls of iteration [k]; the resumption, at instant [t1], of
    the await on [Promise.allSettled]; the call [sleep(1500)], made at
    [t1]; and only after it all the calls of iteration [k+1].  The promise
    of every call of iteration [k] has settled, at [t1] at the latest, and
    [t1] is the instant of the last of these settlements.  Every call of
    iteration [k+1] is made at [t1 + 1500] exactly, hence no earlier than
    any settlement of iteration [k] plus the pacing delay. *)
Theorem C2_no_overlap_pacing (w : world) (n k : nat) :
  (S k < cyclesBegun (startMainLoop w n))%nat ->
  exists t1 rs pre post,
    trace (stateOf (startMainLoop w n)) =
      pre ++ AllSettled k t1 rs :: Sleep k t1 1500 :: post /\
    (launchedIn k pre = taskSet /\ launchedIn (S k) pre = []) /\
    (launchedIn k post = [] /\ launchedIn (S k) post = taskSet) /\
    (forall t a p,
        In (Invoked k t a p) (trace (stateOf (startMainLoop w n))) ->
        exists s o, p = Settles s o /\ s <= t1) /\
    (exists t a o,
        In (Invoked k t a (Settles t1 o))
          (trace (stateOf (startMainLoop w n)))) /\
    (forall t a p,
        In (Invoked (S k) t a p) (trace (stateOf (startMainLoop w n))) ->
        a = t1 + pacingDelay) /\
    (forall t a s o t' a' p',
        In (Invoked k t a (Settles s o))
          (trace (stateOf (startMainLoop w n))) ->
        In (Invoked (S k) t' a' p')
          (trace (stateOf (startMainLoop w n))) ->
        s + pacingDelay <= a').
Proof.
  rewrite startMainLoop_run. intros Hk.
  destruct (run_no_overlap w taskSet pacingDelay n k Hk)
    as (t0 & t1 & rs & pre & post & Etr & Hpre & Hpost & Hc
        & Hk0 & Hk1 & HSk).
  assert (Hset : forall t a p,
             In (Invoked k t a p)
               (trace (stateOf (run w taskSet pacingDelay n))) ->
             exists s o, p = Settles s o /\ s <= t1).
  { intros t a p Hin. destruct (Hk0 _ _ _ Hin) as (Ht & -> & ->).
    destruct (collect_settles w k t0 taskSet t1 rs t Hc Ht)
      as (d & s & Hw & Hle).
    rewrite Hw. simpl. eauto. }
  exists t1, rs, pre, post.
  split; [exact Etr|]. split; [exact Hpre|]. split; [exact Hpost|].
  split; [exact Hset|]. split; [|split; [exact HSk|]].
  - destruct (collect_last w k t0 taskSet t1 rs Hc)
      as (t & d & s & Ht & Hw & Ht1); [discriminate|].
    exists t, t0, s. specialize (Hk1 t Ht).
    rewrite Hw in Hk1. simpl in Hk1. now rewrite Ht1.
  - intros t a s o t' a' p' Hin Hin'.
    destruct (Hset _ _ _ Hin) as (s' & o' & E & Hle).
    inversion E; subst s' o'.
    rewrite (HSk _ _ _ Hin'). lia.
Qed.

(** C3.  Liveness: for no world and no budget does [startMainLoop]
    return or crash; and if every task called in the first [n]
    iterations settles, then after [n] turns of the loop [n] iterations
    are complete: each has called the five tasks and has slept for the
    pacing delay. *)
Theorem C3_liveness (w : world) (n : nat) :
  (forall st, startMainLoop w n <> Returned st) /\
  (forall r st, startMainLoop w n <> Crashed r st) /\
  ((forall k t, (k < n)%nat -> w k t <> NeverSettles) ->
   exists st,
     startMainLoop w n = Running st /\ cycle st = n /\
     sleeps (trace st) = repeat pacingDelay n /\
     forall k, (k < n)%nat -> launchedIn k (trace st) = taskSet).
Proof.
  rewrite startMainLoop_run.
  destruct (run_alive w taskSet pacingDelay n) as [H1 H2].
  split; [exact H1|]. split; [exact H2|].
  intros Hall.
  destruct (run_completes w taskSet pacingDelay n) as (t & tr & E & H).
  { intros k u Hk _. now apply Hall. }
  rewrite E. exists (mkState t n tr). cbn [cycle trace].
  split; [reflexivity|]. split; [reflexivity|]. split.
  - exact (history_sleeps w taskSet pacingDelay n t tr H).
  - intros k Hk.
    rewrite (history_launchedIn w taskSet pacingDelay n t tr k H).
    apply Nat.ltb_lt in Hk. now rewrite Hk.
Qed.

(** C4.  Exactly-once launch in declared order: in every iteration that
    [startMainLoop] begins, whatever the tasks do, the tasks called are
    the five of the task set, in the order in which they are written,
    and each is called exactly once.  Nothing is stated on the order in
    which their promises settle: that is left to the world. *)
Theorem C4_launch_once_in_order (w : world) (n k : nat) :
  (k < cyclesBegun (startMainLoop w n))%nat ->
  launchedIn k (trace (stateOf (startMainLoop w n))) = taskSet /\
  forall t,
    count_occ task_eq_dec
      (launchedIn k (trace (stateOf (startMainLoop w n)))) t = 1%nat.
Proof.
  intros Hk. rewrite startMainLoop_run in *.
  rewrite run_launchedIn.
  apply Nat.ltb_lt in Hk. rewrite Hk.
  split; [reflexivity|apply taskSet_once].
Qed.

(** C5.  Resolver identity law: for every string [url], the promise
    that [getDownloadUrl url] returns is fulfilled with [url] itself,
    and a caller that awaits it resumes with [url]. *)
Theorem C5_resolver_identity (url : string) (st : state) :
  getDownloadUrl url st = Settles (now st) (Fulfilled url) /\
  await (getDownloadUrl url st) st
    = Normal url (mkState (now st) (cycle st) (trace st)).
Proof.
  unfold getDownloadUrl, async_, ret, await.
  now rewrite N.max_id.
Qed.

(** C6.  The resolver always succeeds: for every string, the promise
    that [getDownloadUrl] returns is fulfilled; it is neither rejected
    nor pending for ever, and awaiting it neither throws nor
    suspends the caller for ever. *)
Theorem C6_resolver_always_succeeds (url : string) (st : state) :
  (exists t v, getDownloadUrl url st = Settles t (Fulfilled v)) /\
  (forall t r, getDownloadUrl url st <> Settles t (Rejected r)) /\
  getDownloadUrl url st <> Forever /\
  (forall r st', await (getDownloadUrl url st) st <> Throw r st') /\
  (forall st', await (getDownloadUrl url st) st <> Suspended st').
Proof.
  unfold getDownloadUrl, async_, ret, await.
  repeat split; try discriminate. eauto.
Qed.

(** C7.  Outcome-independence: the array of results is bound to nothing
    and no outcome flows into the loop.  Take two worlds in which the
    promise of every call settles after the same time, or never in both,
    the settlements being any fulfilment or rejection with any value or
    reason.  Then, for every budget, [startMainLoop] behaves the same in
    both: same status, same clock, same count of iterations, same calls
    and sleeps at the same instants in the same order. *)
Theorem C7_outcome_independence (w1 w2 : world) (n : nat) :
  (forall k t, timing (w1 k t) = timing (w2 k t)) ->
  schedule (startMainLoop w1 n) = schedule (startMainLoop w2 n).
Proof.
  intros Hsame. rewrite !startMainLoop_run. unfold run.
  apply while_erased; [exact Hsame|].
  repeat split.
Qed.

(** C8.  Fixed Task Set: all the calls that [startMainLoop] makes are
    the task set written in the source, over and over, once for each
    iteration begun; any two iterations begun call the same ordered list
    of tasks.  No task is added or removed between iterations. *)
Theorem C8_fixed_task_set (w : world) (n j k : nat) :
  (j < cyclesBegun (startMainLoop w n))%nat ->
  (k < cyclesBegun (startMainLoop w n))%nat ->
  launched (trace (stateOf (startMainLoop w n))) =
    List.concat (repeat taskSet (cyclesBegun (startMainLoop w n))) /\
  launchedIn j (trace (stateOf (startMainLoop w n))) = taskSet /\
  launchedIn j (trace (stateOf (startMainLoop w n))) =
  launchedIn k (trace (stateOf (startMainLoop w n))).
Proof.
  intros Hj Hk. rewrite startMainLoop_run in *.
  split; [apply run_launched|].
  rewrite !run_launchedIn.
  apply Nat.ltb_lt in Hj, Hk. rewrite Hj, Hk. auto.
Qed.

(** C9.  Starvation on a hung task: if the trace of [startMainLoop]
    holds a call, in iteration [k], whose promise never settles, then
    the loop is stalled in iteration [k] and stays so, in the same state,
    whatever more budget it is given.  Iteration [k] has called its five
    tasks; the array of results of iteration [k] is never observed,
    [sleep] is not called in iteration [k], and no task is called in any
    later iteration. *)
Theorem C9_starvation (w : world) (n k : nat) (t : task) (a : N) :
  In (Invoked k t a Forever) (trace (stateOf (startMainLoop w n))) ->
  exists st,
    startMainLoop w n = Stalled st /\ cycle st = k /\
    (forall m, (n <= m)%nat -> startMainLoop w m = Stalled st) /\
    launchedIn k (trace st) = taskSet /\
    (forall j, (k < j)%nat -> launchedIn j (trace st) = []) /\
    (forall t1 rs, ~ In (AllSettled k t1 rs) (trace st)) /\
    (forall t1 ms, ~ In (Sleep k t1 ms) (trace st)).
Proof.
  unfold startMainLoop at 1 2. fold (run w taskSet pacingDelay n).
  intros Hin.
  assert (Hst : exists st,
             run w taskSet pacingDelay n = Stalled st /\ cycle st = k).
  { destruct (run_In w taskSet pacingDelay n _ Hin)
      as (t0 & tr0 & Hh & [(t1 & rs & Hlt & Hc & Hin')
                          |(st & Hst & Hk & Hc & Hin')]);
      cbn [tag] in *.
    - apply in_cycleEvents_Invoked, in_launches in Hin'.
      destruct Hin' as (_ & Hu & -> & Hp).
      destruct (collect_settles w k t0 taskSet t1 rs t Hc Hu)
        as (d & s & Hw & _).
      rewrite Hw in Hp. discriminate.
    - eauto. }
  destruct Hst as (st & Hst & Hk). exists st.
  pose proof (run_launchedIn w taskSet pacingDelay n) as HL.
  assert (Hnot : forall e, In e (trace st) -> tag e = k ->
                   exists u b p, e = Invoked k u b p).
  { intros e He Hk'.
    assert (He' : In e (trace (stateOf (run w taskSet pacingDelay n))))
      by (rewrite Hst; exact He).
    destruct (run_In w taskSet pacingDelay n _ He')
      as (t0 & tr0 & Hh & [(t1 & rs & Hlt & Hc & Hin')
                          |(st' & Hst' & Hk'' & Hc & Hin')]).
    - rewrite Hst in Hlt. simpl in Hlt. lia.
    - destruct e; cbn [tag] in *.
      + subst. eauto.
      + apply in_map_iff in Hin'. destruct Hin' as (? & ? & _).
        discriminate.
      + apply in_map_iff in Hin'. destruct Hin' as (? & ? & _).
        discriminate. }
  rewrite Hst in HL. simpl in HL. rewrite Hk in HL.
  split; [exact Hst|]. split; [exact Hk|].
  split; [|split; [|split; [|split]]].
  - intros m Hm. unfold startMainLoop.
    now apply while_stalled_stable with (n := n).
  - rewrite HL. replace (k <? S k)%nat with true
      by (symmetry; apply Nat.ltb_lt; lia). reflexivity.
  - intros j Hj. rewrite HL. replace (j <? S k)%nat with false
      by (symmetry; apply Nat.ltb_ge; lia). reflexivity.
  - intros t1 rs Hi. destruct (Hnot _ Hi eq_refl) as (? & ? & ? & ?).
    discriminate.
  - intros t1 ms Hi. destruct (Hnot _ Hi eq_refl) as (? & ? & ? & ?).
    discriminate.
Qed.

(** C10.  Hardcoded constants: [startMainLoop] is the Orchestrator run
    on the list of the five tasks [watchProcesses], [watchDownloads],
    [watchAchievements], [getSeedStatus], [checkForUpdatePeriodically]
    with a pacing delay of 1500 ms.  Whatever the world and the budget
    (it has no other input), every sleep it requests is of 1500 ms, one
    for each iteration completed, and every iteration it begins calls
    these five tasks. *)
Theorem C10_hardcoded_constants (w : world) (n : nat) :
  startMainLoop w n =
    run w [watchProcesses; watchDownloads; watchAchievements;
           getSeedStatus; checkForUpdatePeriodically] 1500 n /\
  sleeps (trace (stateOf (startMainLoop w n))) =
    repeat 1500 (cycle (stateOf (startMainLoop w n))) /\
  (forall k a ms,
      In (Sleep k a ms) (trace (stateOf (startMainLoop w n))) ->
      ms = 1500) /\
  (forall k,
      (k < cyclesBegun (startMainLoop w n))%nat ->
      launchedIn k (trace (stateOf (startMainLoop w n))) =
        [watchProcesses; watchDownloads; watchAchievements;
         getSeedStatus; checkForUpdatePeriodically]) /\
  List.length (launchedIn 0 (trace (stateOf (startMainLoop w (S n))))) = 5%nat.
Proof.
  split; [apply startMainLoop_run|].
  rewrite !startMainLoop_run.
  split; [apply run_sleeps|]. split; [|split].
  - intros k a ms Hin.
    destruct (run_In w taskSet pacingDelay n _ Hin)
      as (t0 & tr0 & Hh & [(t1 & rs & Hlt & Hc & Hin')
                          |(st & Hst & Hk & Hc & Hin')]).
    + unfold cycleEvents in Hin'. apply in_app_or in Hin'.
      destruct Hin' as [Hin'|[Hin'|[Hin'|[]]]].
      * apply in_map_iff in Hin'. destruct Hin' as (? & ? & _).
        discriminate.
      * discriminate.
      * inversion Hin'. reflexivity.
    + apply in_map_iff in Hin'. destruct Hin' as (? & ? & _).
      discriminate.
  - intros k Hk. rewrite run_launchedIn.
    apply Nat.ltb_lt in Hk. now rewrite Hk.
  - rewrite run_launchedIn.
    destruct (run_runs w taskSet pacingDelay (S n)); reflexivity.
Qed.

(** ** Timing of the iterations *)


Lemma collect_hung (w : world) k t0 ts :
  allSettled_collect t0 (promises w k t0 ts) = None ->
  exists t, In t ts /\ w k t = NeverSettles.
Proof.
  induction ts as [|t ts IH]; simpl; intros H.
  - discriminate.
  - destruct (w k t) as [d s|] eqn:Hw; simpl in H.
    + destruct (allSettled_collect t0 (promises w k t0 ts))
        as [[t' rs']|]; [discriminate|].
      destruct (IH eq_refl) as (u & Hu & Hn). eauto.
    + eauto.
Qed.


(** Iteration [k] begins no sooner than [k - j] pacing delays after
    iteration [j]. *)
Lemma history_gap (w : world) tasks delay k tk trk :
  history w tasks delay k tk trk ->
  forall j tj trj, history w tasks delay j tj trj -> (j <= k)%nat ->
  tj + delay * N.of_nat (k - j) <= tk.
Proof.
  induction 1 as [|m t0 tr t1 rs H IH Hc]; intros j tj trj Hj Hle.
  - assert (j = 0%nat) by lia. subst j. inversion Hj. simpl. lia.
  - destruct (Nat.eq_dec j (S m)) as [->|Hne].
    + destruct (history_fun _ _ _ _ _ _ Hj _ _
                  (history_S w tasks delay m t0 tr t1 rs H Hc)) as [-> _].
      rewrite Nat.sub_diag. simpl. lia.
    + assert (Hjm : (j <= m)%nat) by lia.
      specialize (IH j tj trj Hj Hjm).
      pose proof (collect_ge _ _ _ _ Hc) as Hge.
      replace (S m - j)%nat with (S (m - j)) by lia.
      rewrite Nat2N.inj_succ, N.mul_succ_r. lia.
Qed.


(** ** More budget only adds to the trace *)




(** ** The trace is in the order of time *)





(** ** Further properties of the loop *)


(** X2.  Concurrent launch: the calls of one iteration are all made at
    the same instant, whether or not the promises of the calls before
    them in the array settle, and the promise of each settles as its own
    task decides, counted from that instant. *)
Theorem X2_concurrent_launch (w : world) (n k : nat) (t t' : task)
  (a a' : N) (p p' : promise value) :
  In (Invoked k t a p) (trace (stateOf (startMainLoop w n))) ->
  In (Invoked k t' a' p') (trace (stateOf (startMainLoop w n))) ->
  a = a' /\ p = promiseOf a (w k t) /\ p' = promiseOf a (w k t').
Proof.
  rewrite startMainLoop_run. intros Hin Hin'.
  apply run_Invoked in Hin, Hin'.
  destruct Hin as ((tr0 & H0) & _ & Hp & _).
  destruct Hin' as ((tr0' & H0') & _ & Hp' & _).
  destruct (history_fun _ _ _ _ _ _ H0 _ _ H0') as [<- _]. auto.
Qed.

(** X3.  Rate limit: two calls made in iterations [j < k] are at least
    [k - j] times 1500 ms apart; in particular no task is called twice
    within 1500 ms. *)
Theorem X3_rate_limit (w : world) (n j k : nat) (t t' : task) (a a' : N)
  (p p' : promise value) :
  (j < k)%nat ->
  In (Invoked j t a p) (trace (stateOf (startMainLoop w n))) ->
  In (Invoked k t' a' p') (trace (stateOf (startMainLoop w n))) ->
  a + 1500 * N.of_nat (k - j) <= a' /\ a + 1500 <= a'.
Proof.
  rewrite startMainLoop_run. intros Hjk Hin Hin'.
  apply run_Invoked in Hin, Hin'.
  destruct Hin as ((tr0 & H0) & _).
  destruct Hin' as ((tr0' & H0') & _).
  assert (Hle : (j <= k)%nat) by lia.
  pose proof (history_gap w taskSet pacingDelay k a' tr0' H0' j a tr0 H0 Hle)
    as Hgap.
  unfold pacingDelay in Hgap. split; [exact Hgap|].
  assert (1 <= N.of_nat (k - j)) by lia. lia.
Qed.


(** X5.  The loop stalls on a hung task only: whenever [startMainLoop]
    is stalled, some task called in the iteration at which it is stalled,
    at the instant at which it is stalled, returned a promise that never
    settles. *)
Theorem X5_stalled_by_hung_task (w : world) (n : nat) :
  statusOf (startMainLoop w n) = IsStalled ->
  exists t,
    w (cycle (stateOf (startMainLoop w n))) t = NeverSettles /\
    In (Invoked (cycle (stateOf (startMainLoop w n))) t
          (now (stateOf (startMainLoop w n))) Forever)
      (trace (stateOf (startMainLoop w n))) /\
    (cycle (stateOf (startMainLoop w n)) < n)%nat.
Proof.
  rewrite startMainLoop_run.
  destruct (run_runs w taskSet pacingDelay n) as [t tr H|c t0 tr Hc H Hn];
    cbn [stateOf statusOf cycle now trace]; intros Hs; [discriminate|].
  destruct (collect_hung w c t0 taskSet Hn) as (u & Hu & Hw).
  exists u. split; [exact Hw|]. split; [|exact Hc].
  apply in_or_app. right. unfold launches. apply in_map_iff.
  exists u. rewrite Hw. auto.
Qed.



End Proofs.

(** ** The theorems at the sample worlds *)

Example calm_one_iteration :
  startMainLoop calm 1 =
  Running
    (mkState 1700 1
       [Invoked 0 watchProcesses 0 (Settles 200 (Fulfilled tt));
        Invoked 0 watchDownloads 0 (Settles 40 (Fulfilled tt));
        Invoked 0 watchAchievements 0 (Settles 75 (Fulfilled tt));
        Invoked 0 getSeedStatus 0 (Settles 10 (Fulfilled tt));
        Invoked 0 checkForUpdatePeriodically 0 (Settles 120 (Fulfilled tt));
        AllSettled 0 200
          [StatusFulfilled tt; StatusFulfilled tt; StatusFulfilled tt;
           StatusFulfilled tt; StatusFulfilled tt];
        Sleep 0 200 1500]).
Proof. reflexivity. Qed.

Example faulty_results :
  In (AllSettled 2 3600
        [StatusFulfilled tt; StatusRejected "network down"%string;
         StatusFulfilled tt; StatusFulfilled tt; StatusFulfilled tt])
    (trace (stateOf (startMainLoop faulty 3))).
Proof. vm_compute. repeat (first [left; reflexivity | right]). Qed.

(** Four tasks of which the second always rejects: over three iterations
    each of the four is called three times. *)
Example four_tasks_three_iterations :
  forall t,
    count_occ task_eq_dec
      (launched
         (trace (stateOf
            (run faulty [watchProcesses; watchDownloads; watchAchievements;
                         getSeedStatus] 1500 3)))) t
    = if task_eq_dec t checkForUpdatePeriodically then 0%nat else 3%nat.
Proof. intros t. destruct t; vm_compute; reflexivity. Qed.

Example hanging_stalls :
  startMainLoop hanging 7 = startMainLoop hanging 2 /\
  statusOf (startMainLoop hanging 7) = IsStalled /\
  cycle (stateOf (startMainLoop hanging 7)) = 1%nat /\
  now (stateOf (startMainLoop hanging 7)) = 1700.
Proof. vm_compute. repeat split. Qed.

Lemma faulty_settles (k : nat) (t : task) : faulty k t <> NeverSettles.
Proof. destruct t; discriminate. Qed.

Lemma calm_settles (k : nat) (t : task) : calm k t <> NeverSettles.
Proof. discriminate. Qed.

Lemma C1_fault_isolation_witness :
  (forall k t, (k < 3)%nat -> faulty k t <> NeverSettles) /\
  exists st,
    startMainLoop faulty 3 = Running st /\ cycle st = 3%nat /\
    (forall t, count_occ task_eq_dec (launched (trace st)) t = 3%nat) /\
    forall k, (k < 3)%nat ->
      launchedIn k (trace st) = taskSet /\
      exists t1 rs,
        In (AllSettled k t1 rs) (trace st) /\
        Forall2 (fun t r => exists d s,
                     faulty k t = SettlesAfter d s /\ r = toResult s)
          taskSet rs /\
        forall t d r,
          faulty k t = SettlesAfter d (Rejected r) ->
          In (StatusRejected r) rs.
Proof.
  split.
  - intros k t _. apply faulty_settles.
  - apply (C1_fault_isolation faulty 3).
    intros k t _. apply faulty_settles.
Defined.

Lemma C2_no_overlap_pacing_witness :
  (1 < cyclesBegun (startMainLoop calm 2))%nat /\
  exists t1 rs pre post,
    trace (stateOf (startMainLoop calm 2)) =
      pre ++ AllSettled 0 t1 rs :: Sleep 0 t1 1500 :: post /\
    (launchedIn 0 pre = taskSet /\ launchedIn 1 pre = []) /\
    (launchedIn 0 post = [] /\ launchedIn 1 post = taskSet) /\
    (forall t a p,
        In (Invoked 0 t a p) (trace (stateOf (startMainLoop calm 2))) ->
        exists s o, p = Settles s o /\ s <= t1) /\
    (exists t a o,
        In (Invoked 0 t a (Settles t1 o))
          (trace (stateOf (startMainLoop calm 2)))) /\
    (forall t a p,
        In (Invoked 1 t a p) (trace (stateOf (startMainLoop calm 2))) ->
        a = t1 + pacingDelay) /\
    (forall t a s o t' a' p',
        In (Invoked 0 t a (Settles s o))
          (trace (stateOf (startMainLoop calm 2))) ->
        In (Invoked 1 t' a' p')
          (trace (stateOf (startMainLoop calm 2))) ->
        s + pacingDelay <= a').
Proof.
  split.
  - vm_compute. lia.
  - apply (C2_no_overlap_pacing calm 2 0). vm_compute. lia.
Defined.

Lemma C3_liveness_witness :
  (forall k t, (k < 4)%nat -> calm k t <> NeverSettles) /\
  exists st,
    startMainLoop calm 4 = Running st /\ cycle st = 4%nat /\
    sleeps (trace st) = repeat pacingDelay 4 /\
    forall k, (k < 4)%nat -> launchedIn k (trace st) = taskSet.
Proof.
  split.
  - intros k t _. apply calm_settles.
  - apply (proj2 (proj2 (C3_liveness calm 4))).
    intros k t _. apply calm_settles.
Defined.

Lemma C4_launch_once_in_order_witness :
  (1 < cyclesBegun (startMainLoop hanging 5))%nat /\
  launchedIn 1 (trace (stateOf (startMainLoop hanging 5))) = taskSet /\
  forall t,
    count_occ task_eq_dec
      (launchedIn 1 (trace (stateOf (startMainLoop hanging 5)))) t = 1%nat.
Proof.
  split.
  - vm_compute. lia.
  - apply (C4_launch_once_in_order hanging 5 1). vm_compute. lia.
Defined.

Lemma C7_outcome_independence_witness :
  (forall k t, timing (calm k t) = timing (faulty k t)) /\
  schedule (startMainLoop calm 3) = schedule (startMainLoop faulty 3).
Proof.
  split.
  - intros k t. destruct t; reflexivity.
  - apply (C7_outcome_independence calm faulty 3).
    intros k t. destruct t; reflexivity.
Defined.

Lemma C8_fixed_task_set_witness :
  (0 < cyclesBegun (startMainLoop hanging 5))%nat /\
  (1 < cyclesBegun (startMainLoop hanging 5))%nat /\
  launched (trace (stateOf (startMainLoop hanging 5))) =
    List.concat (repeat taskSet (cyclesBegun (startMainLoop hanging 5))) /\
  launchedIn 0 (trace (stateOf (startMainLoop hanging 5))) = taskSet /\
  launchedIn 0 (trace (stateOf (startMainLoop hanging 5))) =
  launchedIn 1 (trace (stateOf (startMainLoop hanging 5))).
Proof.
  split; [vm_compute; lia|]. split; [vm_compute; lia|].
  apply (C8_fixed_task_set hanging 5 0 1); vm_compute; lia.
Defined.

Lemma C9_starvation_witness :
  In (Invoked 1 getSeedStatus 1700 Forever)
    (trace (stateOf (startMainLoop hanging 5))) /\
  exists st,
    startMainLoop hanging 5 = Stalled st /\ cycle st = 1%nat /\
    (forall m, (5 <= m)%nat -> startMainLoop hanging m = Stalled st) /\
    launchedIn 1 (trace st) = taskSet /\
    (forall j, (1 < j)%nat -> launchedIn j (trace st) = []) /\
    (forall t1 rs, ~ In (AllSettled 1 t1 rs) (trace st)) /\
    (forall t1 ms, ~ In (Sleep 1 t1 ms) (trace st)).
Proof.
  split.
  - vm_compute. repeat (first [left; reflexivity | right]).
  - apply (C9_starvation hanging 5 1 getSeedStatus 1700).
    vm_compute. repeat (first [left; reflexivity | right]).
Defined.

(** ** The further properties at the sample worlds *)


Lemma X2_concurrent_launch_witness :
  In (Invoked 1 watchProcesses 1700 (Settles 1900 (Fulfilled tt)))
    (trace (stateOf (startMainLoop hanging 4))) /\
  In (Invoked 1 getSeedStatus 1700 Forever)
    (trace (stateOf (startMainLoop hanging 4))) /\
  1700 = 1700 /\
  Settles 1900 (Fulfilled tt) = promiseOf 1700 (hanging 1%nat watchProcesses) /\
  Forever = promiseOf 1700 (hanging 1%nat getSeedStatus).
Proof.
  assert (H0 : In (Invoked 1 watchProcesses 1700
                     (Settles 1900 (Fulfilled tt)))
                 (trace (stateOf (startMainLoop hanging 4)))).
  { vm_compute. repeat (first [left; reflexivity | right]). }
  assert (H1 : In (Invoked 1 getSeedStatus 1700 Forever)
                 (trace (stateOf (startMainLoop hanging 4)))).
  { vm_compute. repeat (first [left; reflexivity | right]). }
  split; [exact H0|]. split; [exact H1|].
  exact (X2_concurrent_launch hanging 4 1 watchProcesses getSeedStatus
           1700 1700 _ _ H0 H1).
Defined.

Lemma X3_rate_limit_witness :
  (0 < 2)%nat /\
  In (Invoked 0 watchDownloads 0
        (Settles 40 (Rejected "network down"%string)))
    (trace (stateOf (startMainLoop faulty 3))) /\
  In (Invoked 2 watchDownloads 3400
        (Settles 3440 (Rejected "network down"%string)))
    (trace (stateOf (startMainLoop faulty 3))) /\
  0 + 1500 * N.of_nat (2 - 0) <= 3400 /\ 0 + 1500 <= 3400.
Proof.
  assert (H0 : In (Invoked 0 watchDownloads 0
                     (Settles 40 (Rejected "network down"%string)))
                 (trace (stateOf (startMainLoop faulty 3)))).
  { vm_compute. repeat (first [left; reflexivity | right]). }
  assert (H1 : In (Invoked 2 watchDownloads 3400
                     (Settles 3440 (Rejected "network down"%string)))
                 (trace (stateOf (startMainLoop faulty 3)))).
  { vm_compute. repeat (first [left; reflexivity | right]). }
  assert (Hlt : (0 < 2)%nat) by lia.
  split; [exact Hlt|]. split; [exact H0|]. split; [exact H1|].
  exact (X3_rate_limit faulty 3 0 2 watchDownloads watchDownloads 0 3400
           _ _ Hlt H0 H1).
Defined.



Lemma X5_stalled_by_hung_task_witness :
  statusOf (startMainLoop hanging 6) = IsStalled /\
  exists t,
    hanging (cycle (stateOf (startMainLoop hanging 6))) t = NeverSettles /\
    In (Invoked (cycle (stateOf (startMainLoop hanging 6))) t
          (now (stateOf (startMainLoop hanging 6))) Forever)
      (trace (stateOf (startMainLoop hanging 6))) /\
    (cycle (stateOf (startMainLoop hanging 6)) < 6)%nat.
Proof.
  split.
  - vm_compute. reflexivity.
  - apply (X5_stalled_by_hung_task hanging 6). vm_compute. reflexivity.
Defined.

